(** * The pizza shop of [Python/archive/2_1_factory.py]

    A shallow embedding of the registry-based factory, the category chefs,
    the head chef's fallback loop, orders, the receptionist and the waiter,
    followed by the properties of the specification that concern them.

    Python's mutable state is threaded explicitly: the two class attributes
    of [PizzaFactory], the objects allocated so far (pizzas and orders, each
    with its own identity) and the lines written by [print].  Exceptions are
    the second component of the result; state changes made before a [raise]
    persist, as they do in Python. *)

From stdpp Require Import base option list strings pretty gmap fin_maps.

Open Scope string_scope.
Open Scope Z_scope.

(** ** Objects *)

(** The four concrete subclasses of [Pizza].  A class is also its own
    constructor: the registry stores the class and calls it. *)
Inductive PizzaClass := Margherita | Paneer | Chicken | Farmhouse.

#[global] Instance PizzaClass_eq_dec : EqDecision PizzaClass.
Proof. solve_decision. Defined.

(** Object identity (what [id(obj)] or [is] observes). *)
Definition loc := nat.

(** A reference to a pizza instance: its identity and its dynamic class.
    Pizza instances carry no fields. *)
Record Pizza := mkPizza { pizza_addr : loc; pizza_class : PizzaClass }.

#[global] Instance Pizza_eq_dec : EqDecision Pizza.
Proof. solve_decision. Defined.

(** What the heap stores at an address.  An [Order] instance has the two
    attributes set by [Order.__init__]. *)
Inductive obj :=
  | PizzaObj (cls : PizzaClass)
  | OrderObj (order_id : Z) (pizza : Pizza).

#[global] Instance obj_eq_dec : EqDecision obj.
Proof. solve_decision. Defined.

(** ** Program state *)

Record World := mkWorld {
  registry   : gmap string PizzaClass;      (* PizzaFactory.registry   *)
  categories : gmap string (gset string);   (* PizzaFactory.categories *)
  heap       : gmap loc obj;                (* live instances          *)
  stdout     : list string                  (* one entry per print()   *)
}.

(** The state when the module starts executing: both class attributes are
    the empty dict, nothing is allocated, nothing is printed. *)
Definition empty_world : World :=
  {| registry := ∅; categories := ∅; heap := ∅; stdout := [] |}.

Definition set_heap (h : gmap loc obj) (w : World) : World :=
  {| registry := registry w; categories := categories w;
     heap := h; stdout := stdout w |}.

Definition set_stdout (out : list string) (w : World) : World :=
  {| registry := registry w; categories := categories w;
     heap := heap w; stdout := out |}.

(** ** Exceptions and the state-and-exception monad *)

(** The source raises only [ValueError].  [AttributeError] is what Python
    raises when a method body reads an attribute its receiver lacks; it is
    not a subclass of [ValueError]. *)
Inductive exn :=
  | ValueError (msg : string)
  | AttributeError (msg : string).

Inductive result (A : Type) :=
  | Ok (a : A)
  | Raise (e : exn).
Arguments Ok {A} a.
Arguments Raise {A} e.

Definition M (A : Type) : Type := World → result A * World.

Definition ret {A} (a : A) : M A := λ w, (Ok a, w).

Definition bind {A B} (c : M A) (k : A → M B) : M B :=
  λ w, match c w with
       | (Ok a, w') => k a w'
       | (Raise e, w') => (Raise e, w')
       end.

Definition raise {A} (e : exn) : M A := λ w, (Raise e, w).

#[global] Instance M_ret : MRet M := @ret.
#[global] Instance M_bind : MBind M := λ A B k c, bind c k.

(** [try: body except ValueError: handler].  Any other exception passes
    through; the handler runs in the state the body left behind. *)
Definition try_except_ValueError {A} (body handler : M A) : M A :=
  λ w, match body w with
       | (Ok a, w') => (Ok a, w')
       | (Raise (ValueError _), w') => handler w'
       | (Raise e, w') => (Raise e, w')
       end.

(** [print(s)]. *)
Definition print (s : string) : M unit :=
  λ w, (Ok tt, set_stdout (stdout w ++ [s]) w).

(** Instance creation: the new object gets an identity distinct from that
    of every live object. *)
Definition alloc (o : obj) : M loc :=
  λ w, let l := fresh (dom (heap w)) in
       (Ok l, set_heap (<[l := o]> (heap w)) w).

(** ** Pizza.prepare, by dynamic dispatch on the class *)

Definition prepare_line (cls : PizzaClass) : string :=
  match cls with
  | Margherita => "Margherita: Cheese only!"
  | Paneer => "Paneer Pizza: Spicy paneer chunks!"
  | Chicken => "Chicken Pizza: Grilled chicken!"
  | Farmhouse => "Farmhouse Pizza: Loaded with veggies!"
  end.

Definition Pizza_prepare (self : Pizza) : M unit :=
  print (prepare_line (pizza_class self)).

(** ** PizzaFactory *)

(** [d.setdefault(k, default)]: the value stored under [k], after storing
    [default] there if [k] was absent. *)
Definition dict_setdefault {V} (k : string) (default : V) (d : gmap string V)
  : V * gmap string V :=
  match d !! k with
  | Some v => (v, d)
  | None => (default, <[k := default]> d)
  end.

(** [cls.registry[name] = constructor] followed by
    [cls.categories.setdefault(category, set()).add(name)].  The set that
    [setdefault] returns is the one held by the dict, so [add] updates the
    dict's entry. *)
Definition register (name : string) (constructor : PizzaClass) (category : string)
  : M unit :=
  λ w, let registry' := <[name := constructor]> (registry w) in
       let '(s, categories') := dict_setdefault category ∅ (categories w) in
       let categories'' := <[category := s ∪ {[name]}]> categories' in
       (Ok tt, {| registry := registry'; categories := categories'';
                  heap := heap w; stdout := stdout w |}).

(** Calling a registered constructor: a new instance of that class. *)
Definition construct (cls : PizzaClass) : M Pizza :=
  l ← alloc (PizzaObj cls);
  ret (mkPizza l cls).

Definition get_pizza (name : string) : M Pizza :=
  λ w, match registry w !! name with
       | Some constructor => construct constructor w
       | None => raise (ValueError ("Unknown pizza type: " ++ name)) w
       end.

(** [cls.categories.get(category, set())]. *)
Definition get_category (category : string) : M (gset string) :=
  λ w, (Ok (default ∅ (categories w !! category)), w).

(** ** Chefs *)

(** The abstract class [Chef]: anything with a [prepare_pizza] method. *)
Record Chef := mkChef { prepare_pizza : string → M Pizza }.

Definition VegChef : Chef :=
  {| prepare_pizza pizza_type :=
       members ← get_category "veg";
       if decide (pizza_type ∈ members)
       then get_pizza pizza_type
       else raise (ValueError ("VegChef can't prepare " ++ pizza_type)) |}.

Definition NonVegChef : Chef :=
  {| prepare_pizza pizza_type :=
       members ← get_category "nonveg";
       if decide (pizza_type ∈ members)
       then get_pizza pizza_type
       else raise (ValueError ("NonVegChef can't prepare " ++ pizza_type)) |}.

(** ** Kitchen and HeadChef *)

(** The abstract class [Kitchen]: anything with a [place_order] method. *)
Record Kitchen := mkKitchen { place_order : string → M Pizza }.

(** The body of [HeadChef.place_order], over the chefs still to be tried:
    the first chef that returns ends the loop, a [ValueError] moves on to the
    next chef, and the statement after the loop raises. *)
Fixpoint place_order_loop (chefs : list Chef) (pizza_type : string) : M Pizza :=
  match chefs with
  | chef :: rest =>
      try_except_ValueError (prepare_pizza chef pizza_type)
                            (place_order_loop rest pizza_type)
  | [] =>
      raise (ValueError ("No chef available to prepare '" ++ pizza_type ++ "'"))
  end.

(** [chef_registry] is a dict; iteration over [values()] follows insertion
    order, so it is kept as the list of its items. *)
Definition HeadChef (chef_registry : list (string * Chef)) : Kitchen :=
  {| place_order pizza_type := place_order_loop (chef_registry.*2) pizza_type |}.

(** ** Order *)

(** [Order(order_id, pizza)]: a new instance with the two attributes. *)
Definition Order_new (order_id : Z) (pizza : Pizza) : M loc :=
  alloc (OrderObj order_id pizza).

(** Reading [self.order_id] and [self.pizza]. *)
Definition Order_fields (self : loc) : M (Z * Pizza) :=
  λ w, match heap w !! self with
       | Some (OrderObj order_id pizza) => (Ok (order_id, pizza), w)
       | _ => (Raise (AttributeError "order_id"), w)
       end.

(** The two f-strings of [Order]. *)
Definition preparing_line (order_id : Z) : string :=
  "👨‍🍳 Chef: Preparing Order #" ++ pretty order_id.

Definition delivering_line (order_id : Z) : string :=
  "🧑‍🍽️ Waiter: Delivering Order #" ++ pretty order_id.

Definition Order_prepare (self : loc) : M unit :=
  '(order_id, pizza) ← Order_fields self;
  print (preparing_line order_id);;
  Pizza_prepare pizza.

Definition Order_deliver (self : loc) : M unit :=
  '(order_id, pizza) ← Order_fields self;
  print (delivering_line order_id);;
  Pizza_prepare pizza.

(** ** Receptionist and Waiter *)

Record Receptionist := mkReceptionist { kitchen : Kitchen }.

Definition newline : string := String (Ascii.ascii_of_nat 10) EmptyString.

(** The f-string of [take_order]. *)
Definition received_line (order_id : Z) (pizza_type : string) : string :=
  newline ++ "🧾 Receptionist: Received Order #" ++ pretty order_id
  ++ " for '" ++ pizza_type ++ "' pizza.".

Definition take_order (self : Receptionist) (pizza_type : string) (order_id : Z)
  : M loc :=
  print (received_line order_id pizza_type);;
  pizza ← place_order (kitchen self) pizza_type;
  Order_new order_id pizza.

Definition Waiter_deliver (order : loc) : M unit :=
  Order_deliver order.

(** ** Module initialisation *)

(** The four [PizzaFactory.register] calls executed at import time. *)
Definition register_pizzas : M unit :=
  register "margherita" Margherita "veg";;
  register "paneer" Paneer "veg";;
  register "farmhouse" Farmhouse "veg";;
  register "chicken" Chicken "nonveg".

Definition initial_world : World := (register_pizzas empty_world).2.

(** The [chef_registry] of the simulation. *)
Definition chef_registry : list (string * Chef) :=
  [("veg", VegChef); ("nonveg", NonVegChef)].

(** ** The error kinds of the specification

    The source has a single exception class; the three kinds are told apart
    by where the [ValueError] is raised, hence by its message. *)

Definition UnknownItemType (name : string) : exn :=
  ValueError ("Unknown pizza type: " ++ name).

Definition CategoryMismatch (chef_name pizza_type : string) : exn :=
  ValueError (chef_name ++ " can't prepare " ++ pizza_type).

Definition NoHandlerAvailable (pizza_type : string) : exn :=
  ValueError ("No chef available to prepare '" ++ pizza_type ++ "'").

(** The category handlers of the source, with the class name that appears in
    their message and the category each one is written for. *)
Inductive CategoryHandler : Chef → string → string → Prop :=
  | VegChef_handler : CategoryHandler VegChef "VegChef" "veg"
  | NonVegChef_handler : CategoryHandler NonVegChef "NonVegChef" "nonveg".

Definition is_category_handler (chef : Chef) : Prop :=
  ∃ chef_name category, CategoryHandler chef chef_name category.

(** ** Sequences of registrations and reachable states *)

Abbreviation registration := (string * PizzaClass * string)%type.

Fixpoint register_all (calls : list registration) : M unit :=
  match calls with
  | [] => ret tt
  | (name, constructor, category) :: rest =>
      register name constructor category;; register_all rest
  end.

(** One call of any operation of the module, from any caller.  Head chefs
    are configured with the chefs the module defines. *)
Inductive step : World → World → Prop :=
  | step_register name constructor category w :
      step w (register name constructor category w).2
  | step_get_pizza name w :
      step w (get_pizza name w).2
  | step_get_category category w :
      step w (get_category category w).2
  | step_Pizza_prepare pizza w :
      step w (Pizza_prepare pizza w).2
  | step_prepare_pizza chef pizza_type w :
      is_category_handler chef →
      step w (prepare_pizza chef pizza_type w).2
  | step_place_order chefs pizza_type w :
      Forall is_category_handler chefs.*2 →
      step w (place_order (HeadChef chefs) pizza_type w).2
  | step_Order_new order_id pizza w :
      step w (Order_new order_id pizza w).2
  | step_Order_prepare order w :
      step w (Order_prepare order w).2
  | step_Order_deliver order w :
      step w (Order_deliver order w).2
  | step_take_order chefs pizza_type order_id w :
      Forall is_category_handler chefs.*2 →
      step w (take_order (mkReceptionist (HeadChef chefs)) pizza_type order_id w).2
  | step_Waiter_deliver order w :
      step w (Waiter_deliver order w).2.

Definition reachable (w : World) : Prop := rtc step empty_world w.

(** Every member of every category has a constructor in the registry. *)
Definition members_registered (w : World) : Prop :=
  ∀ category members name,
    categories w !! category = Some members →
    name ∈ members → is_Some (registry w !! name).

(** Some category chef in the list has [n] among the members of its
    category. *)
Definition served_by (chefs : list Chef) (n : string) (w : World) : Prop :=
  ∃ chef chef_name category members,
    chef ∈ chefs ∧ CategoryHandler chef chef_name category ∧
    get_category category w = (Ok members, w) ∧ n ∈ members.

(** [frame w w']: the factory's dicts are the same and every live object is
    still there, unchanged. *)
Definition frame (w w' : World) : Prop :=
  registry w' = registry w ∧ categories w' = categories w ∧ heap w ⊆ heap w'.

(** [c] called [k] times in a row. *)
Fixpoint repeat_call (k : nat) (c : M unit) : M unit :=
  match k with
  | O => ret tt
  | S k' => c;; repeat_call k' c
  end.

(** A state that no sequence of [register] calls produces, set up by
    assigning to the class attribute [PizzaFactory.categories] directly:
    "ghost" is listed under "veg" but has no constructor. *)
Definition tampered_world : World :=
  {| registry := ∅; categories := {[ "veg" := {[ "ghost" ]} ]};
     heap := ∅; stdout := [] |}.

(** The simulation's receptionist, and the state after it has taken order 5
    for a paneer pizza in the initial state: the pizza is object 0 and the
    order is object 1. *)
Definition receptionist : Receptionist := mkReceptionist (HeadChef chef_registry).

Definition paneer_order_world : World :=
  (take_order receptionist "paneer" 5 initial_world).2.

(** ** The body of the simulation loop *)

(** [try: body except ValueError as e: handler], where the handler uses
    [str(e)], the message the [ValueError] was built with. *)
Definition try_except_ValueError_as {A} (body : M A) (handler : string → M A)
  : M A :=
  λ w, match body w with
       | (Ok a, w') => (Ok a, w')
       | (Raise (ValueError msg), w') => handler msg w'
       | (Raise e, w') => (Raise e, w')
       end.

(** The f-string of the [except] clause. *)
Definition error_line (order_counter : Z) (e : string) : string :=
  "❌ Error with Order #" ++ pretty order_counter ++ ": " ++ e.

(** The [try ... except ValueError ... finally] statement that the loop runs
    for a [choice] other than the exit word: take the order, prepare it, have
    the waiter deliver it; report a [ValueError]; in every case count the
    order.  The result is the counter after the [finally] clause.  Any other
    exception leaves the statement. *)
Definition process_order (receptionist : Receptionist) (choice : string)
    (order_counter : Z) : M Z :=
  try_except_ValueError_as
    (order ← take_order receptionist choice order_counter;
     Order_prepare order;;
     Waiter_deliver order)
    (λ e, print (error_line order_counter e));;
  ret (order_counter + 1).

(** ** Further relations between states *)

(** Every registered name is a member of some category, and no known
    category is empty. *)
Definition well_registered (w : World) : Prop :=
  (∀ name, is_Some (registry w !! name) →
     ∃ category members, categories w !! category = Some members ∧ name ∈ members) ∧
  (∀ category members, categories w !! category = Some members → members ≠ ∅).

(** [w'] has everything [w] has: the registered names, the members of every
    category, the live objects, and the output so far. *)
Definition grows (w w' : World) : Prop :=
  (∀ name, is_Some (registry w !! name) → is_Some (registry w' !! name)) ∧
  (∀ category name,
     name ∈ default ∅ (categories w !! category) →
     name ∈ default ∅ (categories w' !! category)) ∧
  heap w ⊆ heap w' ∧
  stdout w `prefix_of` stdout w'.

(** [chef] returns a pizza when asked for [n] in [w]. *)
Definition succeeds (chef : Chef) (n : string) (w : World) : Prop :=
  ∃ p w', prepare_pizza chef n w = (Ok p, w').

(** * Properties *)

(** Unfold one layer of the monad's sequencing. *)
Ltac unfold_bind := unfold mbind, M_bind, bind.

(** Membership in unions, singletons and the empty set, as a disjunction. *)
Ltac elem_of_cases :=
  rewrite ?elem_of_union, ?elem_of_singleton, ?elem_of_empty.

(** ** Allocation *)

Lemma fresh_not_live (w : World) : heap w !! fresh (dom (heap w)) = None.
Proof. apply not_elem_of_dom, is_fresh. Qed.

Lemma alloc_spec (o : obj) (w : World) :
  ∃ l, heap w !! l = None ∧ alloc o w = (Ok l, set_heap (<[l := o]> (heap w)) w).
Proof. exists (fresh (dom (heap w))). split; [apply fresh_not_live | done]. Qed.

(** ** The factory *)

Lemma get_pizza_registered (name : string) (cls : PizzaClass) (w : World) :
  registry w !! name = Some cls →
  ∃ l, heap w !! l = None ∧
       get_pizza name w
       = (Ok (mkPizza l cls), set_heap (<[l := PizzaObj cls]> (heap w)) w).
Proof.
  intros Hreg. exists (fresh (dom (heap w))). split; [apply fresh_not_live|].
  unfold get_pizza. by rewrite Hreg.
Qed.

Lemma get_pizza_unregistered (name : string) (w : World) :
  registry w !! name = None →
  get_pizza name w = (Raise (UnknownItemType name), w).
Proof. intros Hreg. unfold get_pizza. by rewrite Hreg. Qed.

(** C2: [get_pizza n] on a registered name returns a new instance (an
    address that was not live) of exactly the class registered for [n] and
    changes nothing else; it raises the unknown-type [ValueError] if and
    only if [n] has no registered constructor, and then changes nothing.
    Two successive calls return instances with different identities. *)
Theorem get_pizza_spec (n : string) (w : World) :
  (∀ cls, registry w !! n = Some cls →
     ∃ p w', get_pizza n w = (Ok p, w') ∧
       pizza_class p = cls ∧
       heap w !! pizza_addr p = None ∧
       w' = set_heap (<[pizza_addr p := PizzaObj cls]> (heap w)) w ∧
       ∃ p' w'', get_pizza n w' = (Ok p', w'') ∧
         pizza_class p' = cls ∧ pizza_addr p' ≠ pizza_addr p) ∧
  ((get_pizza n w).1 = Raise (UnknownItemType n) ↔ registry w !! n = None) ∧
  (registry w !! n = None → get_pizza n w = (Raise (UnknownItemType n), w)).
Proof.
  split_and!.
  - intros cls Hreg.
    destruct (get_pizza_registered n cls w Hreg) as (l & Hl & Hrun).
    eexists _, _. split; [exact Hrun|]. simpl. split_and!; try done.
    destruct (get_pizza_registered n cls (set_heap (<[l:=PizzaObj cls]> (heap w)) w))
      as (l' & Hl' & Hrun'); [done|].
    eexists _, _. split; [exact Hrun'|]. simpl. split; [done|].
    intros ->. simpl in Hl'. by rewrite lookup_insert_eq in Hl'.
  - split.
    + intros Hres. destruct (registry w !! n) as [cls|] eqn:Hreg; [|done].
      destruct (get_pizza_registered n cls w Hreg) as (l & _ & Hrun).
      by rewrite Hrun in Hres.
    + intros Hreg. by rewrite get_pizza_unregistered.
  - apply get_pizza_unregistered.
Qed.

Lemma get_category_spec (category : string) (w : World) :
  get_category category w = (Ok (default ∅ (categories w !! category)), w).
Proof. done. Qed.

Lemma register_spec (n : string) (k : PizzaClass) (c : string) (w : World) :
  register n k c w
  = (Ok tt, {| registry := <[n := k]> (registry w);
               categories := <[c := default ∅ (categories w !! c) ∪ {[n]}]>
                               (categories w);
               heap := heap w; stdout := stdout w |}).
Proof.
  unfold register, dict_setdefault.
  destruct (categories w !! c) as [s|] eqn:Hc; simpl; [done|].
  by rewrite insert_insert_eq.
Qed.

Lemma register_members (n : string) (k : PizzaClass) (c c' : string) (x : string)
    (w : World) :
  x ∈ default ∅ (categories (register n k c w).2 !! c')
  ↔ (c' = c ∧ x = n) ∨ x ∈ default ∅ (categories w !! c').
Proof.
  rewrite register_spec. simpl. destruct (decide (c = c')) as [->|Hne].
  - rewrite lookup_insert_eq. simpl. elem_of_cases. intuition auto.
  - rewrite lookup_insert_ne by done. intuition congruence.
Qed.

(** C5: [register n k c] maps [n] to [k] in the registry, replacing any
    earlier constructor and leaving other names alone; it makes [c] a known
    category whose members are [n] and the earlier members of [c], leaving
    other categories alone; registering [n] again under any category [c2]
    leaves [n] a member of both [c] and [c2]. *)
Theorem register_effect (n : string) (k : PizzaClass) (c : string) (w : World) :
  ∃ w', register n k c w = (Ok tt, w') ∧
    registry w' !! n = Some k ∧
    (∀ n', n' ≠ n → registry w' !! n' = registry w !! n') ∧
    (∃ s, categories w' !! c = Some s ∧
          get_category c w' = (Ok s, w') ∧
          ∀ x, x ∈ s ↔ x = n ∨ ∃ s0, categories w !! c = Some s0 ∧ x ∈ s0) ∧
    (∀ c', c' ≠ c → categories w' !! c' = categories w !! c') ∧
    heap w' = heap w ∧ stdout w' = stdout w ∧
    (∀ k2 c2, ∃ w'' s s2,
       register n k2 c2 w' = (Ok tt, w'') ∧
       registry w'' !! n = Some k2 ∧
       get_category c w'' = (Ok s, w'') ∧ n ∈ s ∧
       get_category c2 w'' = (Ok s2, w'') ∧ n ∈ s2).
Proof.
  eexists. split; [apply register_spec|]. simpl. split_and!; try done.
  - apply lookup_insert_eq.
  - intros n' Hne. by rewrite lookup_insert_ne.
  - eexists. split; [apply lookup_insert_eq|].
    split; [by rewrite get_category_spec; simpl; rewrite lookup_insert_eq|].
    intros x. destruct (categories w !! c) as [s0|]; simpl.
    + elem_of_cases. split.
      * intros [Hx|Hx]; [right; by exists s0|by left].
      * intros [Hx|(s1 & [= <-] & Hx)]; [by right|by left].
    + elem_of_cases. split.
      * intros [[]|Hx]. by left.
      * intros [Hx|(s0 & ? & _)]; [by right|done].
  - intros c' Hne. by rewrite lookup_insert_ne.
  - intros k2 c2. eexists _, _, _. split; [apply register_spec|]. simpl.
    split; [apply lookup_insert_eq|].
    split; [apply get_category_spec|].
    split; [|split; [apply get_category_spec|]]; simpl.
    + destruct (decide (c2 = c)) as [->|Hne].
      * rewrite !lookup_insert_eq. simpl. elem_of_cases. by right.
      * rewrite lookup_insert_ne, lookup_insert_eq by done. simpl.
        elem_of_cases. by right.
    + rewrite lookup_insert_eq. simpl. elem_of_cases. by right.
Qed.

Lemma register_all_cons (n : string) (k : PizzaClass) (c : string)
    (calls : list registration) (w : World) :
  register_all ((n, k, c) :: calls) w = register_all calls (register n k c w).2.
Proof. simpl. unfold_bind. by rewrite register_spec. Qed.

Lemma register_all_members (calls : list registration) (c x : string) (w : World) :
  x ∈ default ∅ (categories (register_all calls w).2 !! c)
  ↔ (∃ k, (x, k, c) ∈ calls) ∨ x ∈ default ∅ (categories w !! c).
Proof.
  revert w. induction calls as [|[[n k] c'] calls IH]; intros w.
  - simpl. split; [by right|]. intros [[k Hin]|]; [|done]. by apply elem_of_nil in Hin.
  - rewrite register_all_cons, IH, register_members. split.
    + intros [[k' Hin]|[[-> ->]|Hold]].
      * left. exists k'. by right.
      * left. exists k. by left.
      * by right.
    + intros [[k' Hin]|Hold]; [|by right; right].
      apply elem_of_cons in Hin as [Heq|Hin].
      * injection Heq as -> -> ->. right. by left.
      * left. by exists k'.
Qed.

(** C6: [get_category c] never raises and changes nothing; it returns the
    set stored for [c], the empty set when [c] is not a known category, and
    after any sequence of registrations from the empty registry exactly the
    names that were registered under [c]. *)
Theorem get_category_members (c : string) :
  (∀ w, ∃ s, get_category c w = (Ok s, w) ∧
      (categories w !! c = None → s = ∅) ∧
      (∀ s0, categories w !! c = Some s0 → s = s0)) ∧
  (∀ calls, ∃ s,
      get_category c (register_all calls empty_world).2
      = (Ok s, (register_all calls empty_world).2) ∧
      ∀ n, n ∈ s ↔ ∃ k, (n, k, c) ∈ calls).
Proof.
  split.
  - intros w. eexists. split; [apply get_category_spec|].
    split; [by intros ->|by intros s0 ->].
  - intros calls. eexists. split; [apply get_category_spec|].
    intros n. rewrite register_all_members. simpl.
    rewrite lookup_empty. simpl. elem_of_cases. tauto.
Qed.

(** ** Category chefs *)

Lemma handler_prepare_pizza (chef : Chef) (chef_name category n : string) (w : World) :
  CategoryHandler chef chef_name category →
  prepare_pizza chef n w
  = if decide (n ∈ default ∅ (categories w !! category))
    then get_pizza n w
    else (Raise (CategoryMismatch chef_name n), w).
Proof.
  intros [|]; simpl; unfold_bind; rewrite get_category_spec;
    by case_decide.
Qed.

(** C3: a category chef asked for [n] behaves exactly as [get_pizza n] when
    [n] is in the set [get_category] returns for its category, and raises
    its own cannot-prepare [ValueError], changing nothing, when it is not. *)
Theorem category_chef_prepare_pizza
    (chef : Chef) (chef_name category n : string) (members : gset string)
    (w w' : World) :
  CategoryHandler chef chef_name category →
  get_category category w = (Ok members, w') →
  (n ∈ members → prepare_pizza chef n w = get_pizza n w) ∧
  (n ∉ members →
     prepare_pizza chef n w = (Raise (CategoryMismatch chef_name n), w)).
Proof.
  intros Hchef Hcat. rewrite get_category_spec in Hcat.
  injection Hcat as <- <-.
  rewrite (handler_prepare_pizza _ _ _ _ _ Hchef).
  split; intros Hn; by case_decide.
Qed.

(** ** The head chef's fallback loop *)

Lemma try_except_ValueError_caught {A} (body handler : M A) (msg : string)
    (w w1 : World) :
  body w = (Raise (ValueError msg), w1) →
  try_except_ValueError body handler w = handler w1.
Proof. intros Hbody. unfold try_except_ValueError. by rewrite Hbody. Qed.

Lemma try_except_ValueError_returned {A} (body handler : M A) (a : A)
    (w w1 : World) :
  body w = (Ok a, w1) →
  try_except_ValueError body handler w = (Ok a, w1).
Proof. intros Hbody. unfold try_except_ValueError. by rewrite Hbody. Qed.

(** What a category chef does in an arbitrary state: a new instance, or a
    [ValueError] that leaves the state as it was. *)
Lemma handler_outcome (chef : Chef) (n : string) (w : World) :
  is_category_handler chef →
  (∃ chef_name category cls l,
      CategoryHandler chef chef_name category ∧
      n ∈ default ∅ (categories w !! category) ∧
      registry w !! n = Some cls ∧ heap w !! l = None ∧
      prepare_pizza chef n w
      = (Ok (mkPizza l cls), set_heap (<[l := PizzaObj cls]> (heap w)) w)) ∨
  (∃ msg, prepare_pizza chef n w = (Raise (ValueError msg), w)).
Proof.
  intros (chef_name & category & Hchef).
  rewrite (handler_prepare_pizza _ _ _ _ _ Hchef).
  case_decide as Hmem; [|right; by eexists].
  destruct (registry w !! n) as [cls|] eqn:Hreg.
  - destruct (get_pizza_registered n cls w Hreg) as (l & Hl & ->).
    left. by exists chef_name, category, cls, l.
  - right. rewrite get_pizza_unregistered by done. by eexists.
Qed.

Lemma place_order_loop_outcome (chefs : list Chef) (n : string) (w : World) :
  Forall is_category_handler chefs →
  (∃ chef chef_name category cls l,
      chef ∈ chefs ∧ CategoryHandler chef chef_name category ∧
      n ∈ default ∅ (categories w !! category) ∧
      registry w !! n = Some cls ∧ heap w !! l = None ∧
      place_order_loop chefs n w
      = (Ok (mkPizza l cls), set_heap (<[l := PizzaObj cls]> (heap w)) w)) ∨
  place_order_loop chefs n w = (Raise (NoHandlerAvailable n), w).
Proof.
  induction 1 as [|chef rest Hchef _ IH]; [by right|].
  simpl. destruct (handler_outcome chef n w Hchef)
    as [(chef_name & category & cls & l & Hc & Hmem & Hreg & Hl & Hrun)|[msg Hrun]].
  - left. exists chef, chef_name, category, cls, l.
    rewrite (try_except_ValueError_returned _ _ _ _ _ Hrun).
    split_and!; try done. by left.
  - rewrite (try_except_ValueError_caught _ _ _ _ _ Hrun).
    destruct IH as [(chef' & chef_name & category & cls & l & Hin & IH)|IH].
    + left. exists chef', chef_name, category, cls, l. split; [by right|done].
    + by right.
Qed.

Lemma place_order_loop_served (chefs : list Chef) (n : string) (w : World) :
  Forall is_category_handler chefs →
  members_registered w →
  served_by chefs n w →
  ∃ p w', place_order_loop chefs n w = (Ok p, w').
Proof.
  intros Hchefs Hinv. revert Hchefs.
  induction chefs as [|chef rest IH]; intros Hchefs Hserved.
  - destruct Hserved as (? & ? & ? & ? & Hin & _). by apply elem_of_nil in Hin.
  - apply Forall_cons in Hchefs as [Hchef Hrest]. simpl.
    destruct (handler_outcome chef n w Hchef)
      as [(? & ? & cls & l & _ & _ & _ & _ & Hrun)|[msg Hrun]].
    { rewrite (try_except_ValueError_returned _ _ _ _ _ Hrun). by eexists _, _. }
    rewrite (try_except_ValueError_caught _ _ _ _ _ Hrun).
    apply IH; [done|].
    destruct Hserved as (chef' & chef_name & category & members & Hin & Hc & Hcat & Hmem).
    apply elem_of_cons in Hin as [->|Hin];
      [|by exists chef', chef_name, category, members].
    exfalso. rewrite get_category_spec in Hcat. injection Hcat as <-.
    rewrite (handler_prepare_pizza _ _ _ _ _ Hc) in Hrun.
    case_decide; [|done].
    destruct (categories w !! category) as [s|] eqn:Hs;
      [|by apply elem_of_empty in Hmem].
    destruct (Hinv category s n Hs Hmem) as [cls Hreg].
    destruct (get_pizza_registered n cls w Hreg) as (l & _ & Hget).
    by rewrite Hget in Hrun.
Qed.

(** ** What the operations leave alone *)

Lemma frame_refl (w : World) : frame w w.
Proof. by split_and!. Qed.

Lemma frame_trans (w1 w2 w3 : World) : frame w1 w2 → frame w2 w3 → frame w1 w3.
Proof.
  intros (Hr1 & Hc1 & Hh1) (Hr2 & Hc2 & Hh2).
  split_and!; [congruence|congruence|by etrans].
Qed.

Lemma frame_bind {A B} (c : M A) (k : A → M B) (w : World) :
  frame w (c w).2 →
  (∀ a w1, c w = (Ok a, w1) → frame w1 (k a w1).2) →
  frame w ((c ≫= k) w).2.
Proof.
  intros Hc Hk. unfold_bind.
  destruct (c w) as [[a|e] w1] eqn:Hrun; simpl in *; [|done].
  eapply frame_trans; [exact Hc|]. by apply Hk.
Qed.

Lemma frame_print (s : string) (w : World) : frame w (print s w).2.
Proof. by split_and!. Qed.

Lemma frame_alloc (o : obj) (w : World) : frame w (alloc o w).2.
Proof.
  split_and!; [done..|]. simpl. apply insert_subseteq, fresh_not_live.
Qed.

Lemma frame_get_pizza (n : string) (w : World) : frame w (get_pizza n w).2.
Proof.
  unfold get_pizza. destruct (registry w !! n); [|apply frame_refl].
  apply frame_bind; [apply frame_alloc|]. intros; apply frame_refl.
Qed.

Lemma frame_prepare_pizza (chef : Chef) (n : string) (w : World) :
  is_category_handler chef → frame w (prepare_pizza chef n w).2.
Proof.
  intros (chef_name & category & Hchef).
  rewrite (handler_prepare_pizza _ _ _ _ _ Hchef).
  case_decide; [apply frame_get_pizza|apply frame_refl].
Qed.

Lemma frame_place_order_loop (chefs : list Chef) (n : string) (w : World) :
  Forall is_category_handler chefs → frame w (place_order_loop chefs n w).2.
Proof.
  intros Hchefs.
  destruct (place_order_loop_outcome chefs n w Hchefs)
    as [(? & ? & ? & cls & l & _ & _ & _ & _ & Hl & ->)| ->]; [|apply frame_refl].
  split_and!; [done..|]. simpl. by apply insert_subseteq.
Qed.

Lemma frame_Order_fields (order : loc) (w : World) :
  frame w (Order_fields order w).2.
Proof.
  unfold Order_fields. destruct (heap w !! order) as [[]|]; apply frame_refl.
Qed.

Lemma frame_Order_prepare (order : loc) (w : World) :
  frame w (Order_prepare order w).2.
Proof.
  apply frame_bind; [apply frame_Order_fields|]. intros [order_id pizza] w1 _.
  apply frame_bind; [apply frame_print|]. intros; apply frame_print.
Qed.

Lemma frame_Order_deliver (order : loc) (w : World) :
  frame w (Order_deliver order w).2.
Proof.
  apply frame_bind; [apply frame_Order_fields|]. intros [order_id pizza] w1 _.
  apply frame_bind; [apply frame_print|]. intros; apply frame_print.
Qed.

Lemma frame_take_order (chefs : list (string * Chef)) (n : string) (i : Z)
    (w : World) :
  Forall is_category_handler chefs.*2 →
  frame w (take_order (mkReceptionist (HeadChef chefs)) n i w).2.
Proof.
  intros Hchefs. apply frame_bind; [apply frame_print|]. intros _ w1 _.
  apply frame_bind; [by apply frame_place_order_loop|]. intros p w2 _.
  apply frame_alloc.
Qed.

Create HintDb frame.
#[local] Hint Resolve frame_refl frame_print frame_alloc frame_get_pizza
  frame_prepare_pizza frame_place_order_loop frame_Order_prepare
  frame_Order_deliver frame_take_order : frame.

(** Every step keeps the live objects; every step other than a registration
    keeps the factory's dicts. *)
Lemma step_frame (w w' : World) :
  step w w' →
  frame w w' ∨ ∃ n k c, w' = (register n k c w).2.
Proof.
  destruct 1; try (right; by eexists _, _, _); left;
    try unfold Waiter_deliver, Order_new, Pizza_prepare, get_category;
    try change (place_order (HeadChef ?chefs) ?n) with (place_order_loop chefs.*2 n);
    auto with frame.
Qed.

Lemma step_heap (w w' : World) : step w w' → heap w ⊆ heap w'.
Proof.
  intros [(_ & _ & Hheap)|(n & k & c & ->)]%step_frame; [done|].
  by rewrite register_spec.
Qed.

(** ** The registry invariant *)

Lemma members_registered_empty : members_registered empty_world.
Proof. intros category members name Hcat. simpl in Hcat. by rewrite lookup_empty in Hcat. Qed.

Lemma members_registered_register (n : string) (k : PizzaClass) (c : string)
    (w : World) :
  members_registered w → members_registered (register n k c w).2.
Proof.
  intros Hinv category members name. rewrite register_spec. simpl.
  intros Hcat Hin.
  destruct (decide (name = n)) as [->|Hname]; [by rewrite lookup_insert_eq|].
  rewrite lookup_insert_ne by congruence.
  destruct (decide (c = category)) as [->|Hne].
  - rewrite lookup_insert_eq in Hcat. injection Hcat as <-.
    destruct (categories w !! category) as [s|] eqn:Hs; simpl in Hin.
    + apply (Hinv category s); [done|].
      apply elem_of_union in Hin as [Hin|Hin%elem_of_singleton]; [done|congruence].
    + apply elem_of_union in Hin as [Hin%elem_of_empty|Hin%elem_of_singleton];
        [done|congruence].
  - rewrite lookup_insert_ne in Hcat by done. by eapply Hinv.
Qed.

Lemma members_registered_register_all (calls : list registration) (w : World) :
  members_registered w → members_registered (register_all calls w).2.
Proof.
  revert w. induction calls as [|[[n k] c] calls IH]; intros w Hinv; [done|].
  rewrite register_all_cons. by apply IH, members_registered_register.
Qed.

Lemma members_registered_frame (w w' : World) :
  frame w w' → members_registered w → members_registered w'.
Proof.
  intros (Hreg & Hcat & _) Hinv category members name.
  rewrite Hreg, Hcat. apply Hinv.
Qed.

Lemma reachable_members_registered (w : World) :
  reachable w → members_registered w.
Proof.
  intros Hreach.
  refine (rtc_ind_r members_registered empty_world _ _ w Hreach);
    [apply members_registered_empty|].
  clear w Hreach. intros w w' _ Hstep IH.
  destruct (step_frame _ _ Hstep) as [Hframe|(n & k & c & ->)].
  - by eapply members_registered_frame.
  - by apply members_registered_register.
Qed.

Lemma NoHandlerAvailable_not_CategoryMismatch
    (chef : Chef) (chef_name category n m : string) :
  CategoryHandler chef chef_name category →
  NoHandlerAvailable n ≠ CategoryMismatch chef_name m.
Proof. intros [|]; unfold NoHandlerAvailable, CategoryMismatch; simpl; discriminate. Qed.

(** C9: the invariant "every member of every category has a registered
    constructor" holds in the empty registry, is preserved by [register],
    hence holds after every sequence of registrations; and wherever it
    holds, a category chef whose membership test succeeds gets an instance
    from [get_pizza], never the unknown-type error. *)
Theorem registry_invariant :
  members_registered empty_world ∧
  (∀ n k c w, members_registered w → members_registered (register n k c w).2) ∧
  (∀ calls, members_registered (register_all calls empty_world).2) ∧
  (∀ w chef chef_name category members n,
     members_registered w →
     CategoryHandler chef chef_name category →
     get_category category w = (Ok members, w) →
     n ∈ members →
     ∃ p w', get_pizza n w = (Ok p, w') ∧ prepare_pizza chef n w = (Ok p, w')).
Proof.
  split_and!.
  - apply members_registered_empty.
  - apply members_registered_register.
  - intros calls. apply members_registered_register_all, members_registered_empty.
  - intros w chef chef_name category members n Hinv Hchef Hcat Hmem.
    rewrite get_category_spec in Hcat. injection Hcat as <-.
    rewrite (handler_prepare_pizza _ _ _ _ _ Hchef).
    rewrite decide_True by done.
    destruct (categories w !! category) as [s|] eqn:Hs;
      [|by apply elem_of_empty in Hmem].
    destruct (Hinv category s n Hs Hmem) as [cls Hreg].
    destruct (get_pizza_registered n cls w Hreg) as (l & _ & ->).
    by eexists _, _.
Qed.

(** C1: in every reachable state, a head chef configured with category
    chefs returns an item exactly when the requested name is a member of the
    category of at least one of them; otherwise it raises the no-chef
    [ValueError] and changes nothing; whatever it raises is that error, never
    the cannot-prepare error of a category chef. *)
Theorem place_order_resolves (chefs : list (string * Chef)) (n : string) (w : World) :
  reachable w →
  Forall is_category_handler chefs.*2 →
  ((∃ p w', place_order (HeadChef chefs) n w = (Ok p, w'))
     ↔ served_by chefs.*2 n w) ∧
  (¬ served_by chefs.*2 n w →
     place_order (HeadChef chefs) n w = (Raise (NoHandlerAvailable n), w)) ∧
  (∀ e w', place_order (HeadChef chefs) n w = (Raise e, w') →
     e = NoHandlerAvailable n ∧
     ∀ chef chef_name category m,
       CategoryHandler chef chef_name category → e ≠ CategoryMismatch chef_name m).
Proof.
  intros Hinv%reachable_members_registered Hchefs. simpl.
  pose proof (place_order_loop_outcome chefs.*2 n w Hchefs) as Hout.
  assert ((∃ p w', place_order_loop chefs.*2 n w = (Ok p, w'))
          → served_by chefs.*2 n w) as Hserved.
  { intros (p & w' & Hrun).
    destruct Hout as [(chef & chef_name & category & _ & _ & Hin & Hc & Hmem & _)|Hfail];
      [|by rewrite Hfail in Hrun].
    exists chef, chef_name, category, (default ∅ (categories w !! category)).
    by rewrite get_category_spec. }
  split_and!.
  - split; [done|]. by apply place_order_loop_served.
  - intros Hnot. destruct Hout as [(? & ? & ? & ? & ? & _ & _ & _ & _ & _ & Hrun)|]; [|done].
    destruct Hnot. apply Hserved. by eexists _, _.
  - intros e w' Hrun.
    destruct Hout as [(? & ? & ? & ? & ? & _ & _ & _ & _ & _ & Hok)|Hfail];
      [by rewrite Hok in Hrun|].
    rewrite Hfail in Hrun. injection Hrun as <- <-. split; [done|].
    intros chef chef_name category m Hc.
    by eapply NoHandlerAvailable_not_CategoryMismatch.
Qed.

Lemma place_order_loop_raises (chefs : list Chef) (n : string) (w w' : World)
    (e : exn) :
  place_order_loop chefs n w = (Raise e, w') →
  e = NoHandlerAvailable n ∨ ∃ msg, e = AttributeError msg.
Proof.
  revert w. induction chefs as [|chef rest IH]; intros w; simpl.
  - intros [= <- _]. by left.
  - unfold try_except_ValueError.
    destruct (prepare_pizza chef n w) as [[p|[msg|msg]] w1]; [done|apply IH|].
    intros [= <- _]. right. by eexists.
Qed.

(** C10: the [except ValueError] clause of the fallback loop absorbs a
    [ValueError] with any message, the unknown-type one included, and goes
    on with the remaining chefs; so a [ValueError] that leaves
    [place_order] is always the no-chef error, and with the category chefs
    of the module, in any state of the factory's dicts, the no-chef error
    is the only exception [place_order] raises. *)
Theorem place_order_absorbs_ValueError :
  (∀ chef rest n w msg w1,
     prepare_pizza chef n w = (Raise (ValueError msg), w1) →
     place_order_loop (chef :: rest) n w = place_order_loop rest n w1) ∧
  (∀ chefs n w e w',
     place_order (HeadChef chefs) n w = (Raise e, w') →
     e = NoHandlerAvailable n ∨ ∃ msg, e = AttributeError msg) ∧
  (∀ chefs n w e w',
     Forall is_category_handler chefs.*2 →
     place_order (HeadChef chefs) n w = (Raise e, w') →
     e = NoHandlerAvailable n ∧ w' = w).
Proof.
  split_and!.
  - intros chef rest n w msg w1 Hrun. simpl.
    by apply try_except_ValueError_caught with msg.
  - intros chefs n w e w'. apply place_order_loop_raises.
  - intros chefs n w e w' Hchefs Hrun. simpl in Hrun.
    destruct (place_order_loop_outcome chefs.*2 n w Hchefs)
      as [(? & ? & ? & ? & ? & _ & _ & _ & _ & _ & Hok)|Hfail].
    + by rewrite Hok in Hrun.
    + rewrite Hfail in Hrun. by injection Hrun as <- <-.
Qed.

(** ** Orders *)

Lemma set_stdout_twice (out1 out2 : list string) (w : World) :
  set_stdout out2 (set_stdout out1 w) = set_stdout out2 w.
Proof. done. Qed.

Lemma Pizza_prepare_spec (p : Pizza) (w : World) :
  Pizza_prepare p w
  = (Ok tt, set_stdout (stdout w ++ [prepare_line (pizza_class p)]) w).
Proof. done. Qed.

Section LiveOrder.

(** An order [o] that is live in [w], with id [i] and pizza [p]. *)
Variables (o : loc) (i : Z) (p : Pizza) (w : World).
Hypothesis Ho : heap w !! o = Some (OrderObj i p).

Lemma Order_fields_live : Order_fields o w = (Ok (i, p), w).
Proof. unfold Order_fields. by rewrite Ho. Qed.

Lemma Order_prepare_spec :
  Order_prepare o w
  = (Ok tt, set_stdout (stdout w ++ [preparing_line i; prepare_line (pizza_class p)]) w).
Proof.
  unfold Order_prepare. unfold_bind. rewrite Order_fields_live. simpl.
  rewrite Pizza_prepare_spec. simpl. by rewrite set_stdout_twice, <-app_assoc.
Qed.

Lemma Order_deliver_spec :
  Order_deliver o w
  = (Ok tt, set_stdout (stdout w ++ [delivering_line i; prepare_line (pizza_class p)]) w).
Proof.
  unfold Order_deliver. unfold_bind. rewrite Order_fields_live. simpl.
  rewrite Pizza_prepare_spec. simpl. by rewrite set_stdout_twice, <-app_assoc.
Qed.

End LiveOrder.

Lemma delivering_line_inj (i j : Z) : delivering_line i = delivering_line j → i = j.
Proof.
  unfold delivering_line. intros Heq. simpl in Heq. simplify_eq.
  by apply (inj pretty).
Qed.

(** C7: for an order with id [i] wrapping the item [p], [deliver] prints
    the delivery line for [i] (a line that determines [i] and differs from
    every preparation line) and then produces exactly the output of the
    item's own [prepare], the same item output that [Order.prepare]
    produces; nothing but the output changes. *)
Theorem Order_deliver_prepares (o : loc) (i : Z) (p : Pizza) (w : World) :
  heap w !! o = Some (OrderObj i p) →
  ∃ item_effect : list string,
    (∀ w0, Pizza_prepare p w0 = (Ok tt, set_stdout (stdout w0 ++ item_effect) w0)) ∧
    Order_prepare o w
    = (Ok tt, set_stdout (stdout w ++ [preparing_line i] ++ item_effect) w) ∧
    Order_deliver o w
    = (Ok tt, set_stdout (stdout w ++ [delivering_line i] ++ item_effect) w) ∧
    (∀ j, delivering_line i = delivering_line j → i = j) ∧
    (∀ j, delivering_line i ≠ preparing_line j).
Proof.
  intros Ho. exists [prepare_line (pizza_class p)]. split_and!.
  - intros w0. apply Pizza_prepare_spec.
  - by apply Order_prepare_spec.
  - by apply Order_deliver_spec.
  - intros j. apply delivering_line_inj.
  - intros j. unfold delivering_line, preparing_line. simpl. discriminate.
Qed.

Lemma repeat_call_Order_prepare (o : loc) (i : Z) (p : Pizza) (k : nat) (w : World) :
  heap w !! o = Some (OrderObj i p) →
  repeat_call k (Order_prepare o) w
  = (Ok tt,
     set_stdout (stdout w ++ concat (replicate k [preparing_line i;
                                                  prepare_line (pizza_class p)])) w).
Proof.
  revert w. induction k as [|k IH]; intros w Ho.
  - simpl. rewrite app_nil_r. by destruct w.
  - simpl. unfold_bind.
    rewrite (Order_prepare_spec _ _ _ _ Ho). rewrite IH by done.
    simpl. by rewrite set_stdout_twice, <-app_assoc.
Qed.

(** C8: for an order with id [i] wrapping [p], every call of [prepare]
    appends the same two lines to the output, so [k] calls append them [k]
    times, and leave the registry, the categories and the heap, the order's
    own attributes included, as they were; and no operation of the module,
    nor any sequence of them, changes the attributes of a live order. *)
Theorem Order_prepare_idempotent (o : loc) (i : Z) (p : Pizza) (w : World) :
  heap w !! o = Some (OrderObj i p) →
  (∀ k, ∃ w',
     repeat_call k (Order_prepare o) w = (Ok tt, w') ∧
     stdout w' = (stdout w ++ concat (replicate k [preparing_line i;
                                                   prepare_line (pizza_class p)]))%list ∧
     heap w' = heap w ∧ registry w' = registry w ∧ categories w' = categories w ∧
     heap w' !! o = Some (OrderObj i p)) ∧
  (∀ w', step w w' → heap w' !! o = Some (OrderObj i p)) ∧
  (∀ w', rtc step w w' → heap w' !! o = Some (OrderObj i p)).
Proof.
  intros Ho. split_and!.
  - intros k. eexists. split; [by apply repeat_call_Order_prepare|]. by simpl.
  - intros w' Hstep. eapply lookup_weaken; [exact Ho|by apply step_heap].
  - intros w' Hsteps. revert Ho. induction Hsteps as [|w1 w2 w3 Hstep _ IH]; [done|].
    intros Ho. apply IH. eapply lookup_weaken; [exact Ho|by apply step_heap].
Qed.

(** ** Intake *)

(** C4: [take_order] prints the receipt line and asks the kitchen; if the
    kitchen returns an item, the result is a new order instance (an address
    that was not live) whose attributes are the given id and that item; if
    the kitchen raises, the same exception leaves [take_order] in the state
    the kitchen left, with no order allocated.  With a head chef over
    category chefs the exception is the no-chef error and the heap is the
    one before the call. *)
Theorem take_order_spec (r : Receptionist) (n : string) (i : Z) (w : World) :
  let w1 := set_stdout (stdout w ++ [received_line i n]) w in
  (∀ p w2, place_order (kitchen r) n w1 = (Ok p, w2) →
     ∃ o, heap w2 !! o = None ∧
          take_order r n i w
          = (Ok o, set_heap (<[o := OrderObj i p]> (heap w2)) w2)) ∧
  (∀ e w2, place_order (kitchen r) n w1 = (Raise e, w2) →
     take_order r n i w = (Raise e, w2)) ∧
  (∀ chefs e w', r = mkReceptionist (HeadChef chefs) →
     Forall is_category_handler chefs.*2 →
     take_order r n i w = (Raise e, w') →
     e = NoHandlerAvailable n ∧ heap w' = heap w).
Proof.
  intros w1. split_and!.
  - intros p w2 Hrun. destruct (alloc_spec (OrderObj i p) w2) as (o & Ho & Halloc).
    exists o. split; [done|].
    unfold take_order. unfold_bind. simpl. fold w1.
    by rewrite Hrun.
  - intros e w2 Hrun. unfold take_order. unfold_bind. simpl. fold w1.
    by rewrite Hrun.
  - intros chefs e w' -> Hchefs.
    unfold take_order. unfold_bind. simpl. fold w1.
    destruct (place_order_loop_outcome chefs.*2 n w1 Hchefs)
      as [(? & ? & ? & ? & ? & _ & _ & _ & _ & _ & ->)| ->]; [done|].
    by intros [= <- <-].
Qed.

(** * The reference scenario *)

Lemma initial_world_reachable : reachable initial_world.
Proof.
  unfold reachable, initial_world, register_pizzas.
  eapply rtc_l; [apply (step_register "margherita" Margherita "veg")|].
  eapply rtc_l; [apply (step_register "paneer" Paneer "veg")|].
  eapply rtc_l; [apply (step_register "farmhouse" Farmhouse "veg")|].
  eapply rtc_l; [apply (step_register "chicken" Chicken "nonveg")|].
  apply rtc_refl.
Qed.

Lemma chef_registry_handlers : Forall is_category_handler chef_registry.*2.
Proof. repeat constructor; eexists _, _; constructor. Qed.

Example resolve_margherita :
  place_order (HeadChef chef_registry) "margherita" initial_world
  = (Ok (mkPizza 0%nat Margherita),
     set_heap {[ 0%nat := PizzaObj Margherita ]} initial_world).
Proof. vm_compute. reflexivity. Qed.

Example resolve_chicken :
  place_order (HeadChef chef_registry) "chicken" initial_world
  = (Ok (mkPizza 0%nat Chicken), set_heap {[ 0%nat := PizzaObj Chicken ]} initial_world).
Proof. vm_compute. reflexivity. Qed.

Example resolve_pepperoni :
  place_order (HeadChef chef_registry) "pepperoni" initial_world
  = (Raise (NoHandlerAvailable "pepperoni"), initial_world).
Proof. vm_compute. reflexivity. Qed.

Example create_nonexistent :
  get_pizza "nonexistent" initial_world
  = (Raise (UnknownItemType "nonexistent"), initial_world).
Proof. vm_compute. reflexivity. Qed.

Example take_order_paneer :
  ∃ w', take_order receptionist "paneer" 5 initial_world = (Ok 1%nat, w') ∧
        heap w' !! 1%nat = Some (OrderObj 5 (mkPizza 0%nat Paneer)) ∧
        heap w' !! 0%nat = Some (PizzaObj Paneer).
Proof. eexists. split; [vm_compute; reflexivity|]. split; vm_compute; reflexivity. Qed.

Example take_order_shrimp :
  take_order receptionist "shrimp" 2 initial_world
  = (Raise (NoHandlerAvailable "shrimp"),
     set_stdout [received_line 2 "shrimp"] initial_world).
Proof. vm_compute. reflexivity. Qed.

Example tampered_unknown_absorbed :
  prepare_pizza VegChef "ghost" tampered_world
  = (Raise (UnknownItemType "ghost"), tampered_world) ∧
  place_order (HeadChef chef_registry) "ghost" tampered_world
  = (Raise (NoHandlerAvailable "ghost"), tampered_world).
Proof. split; vm_compute; reflexivity. Qed.

(** * The theorems at concrete inputs *)

Lemma place_order_resolves_witness :
  (∃ p w', place_order (HeadChef chef_registry) "margherita" initial_world
           = (Ok p, w')) ∧
  place_order (HeadChef chef_registry) "pepperoni" initial_world
  = (Raise (NoHandlerAvailable "pepperoni"), initial_world).
Proof.
  split.
  - destruct (place_order_resolves chef_registry "margherita" initial_world
                initial_world_reachable chef_registry_handlers) as [[_ Hserved] _].
    apply Hserved.
    exists VegChef, "VegChef", "veg", (default ∅ (categories initial_world !! "veg")).
    split; [by left|]. split; [constructor|]. split; [reflexivity|].
    apply (bool_decide_unpack _). vm_compute. exact I.
  - destruct (place_order_resolves chef_registry "pepperoni" initial_world
                initial_world_reachable chef_registry_handlers) as (_ & _ & Hraise).
    destruct (Hraise (NoHandlerAvailable "pepperoni") initial_world) as [_ _];
      vm_compute; reflexivity.
Defined.

Lemma get_pizza_spec_witness :
  registry initial_world !! "paneer" = Some Paneer ∧
  ∃ p w', get_pizza "paneer" initial_world = (Ok p, w') ∧ pizza_class p = Paneer.
Proof.
  assert (registry initial_world !! "paneer" = Some Paneer) as Hreg
    by (vm_compute; reflexivity).
  split; [exact Hreg|].
  destruct (get_pizza_spec "paneer" initial_world) as [Hnew _].
  destruct (Hnew Paneer Hreg) as (p & w' & Hrun & Hcls & _).
  by exists p, w'.
Defined.

Lemma category_chef_prepare_pizza_witness :
  prepare_pizza VegChef "paneer" initial_world = get_pizza "paneer" initial_world ∧
  prepare_pizza VegChef "chicken" initial_world
  = (Raise (CategoryMismatch "VegChef" "chicken"), initial_world).
Proof.
  split.
  - apply (category_chef_prepare_pizza VegChef "VegChef" "veg" "paneer"
             (default ∅ (categories initial_world !! "veg"))
             initial_world initial_world VegChef_handler eq_refl).
    apply (bool_decide_unpack _). vm_compute. exact I.
  - apply (category_chef_prepare_pizza VegChef "VegChef" "veg" "chicken"
             (default ∅ (categories initial_world !! "veg"))
             initial_world initial_world VegChef_handler eq_refl).
    apply (bool_decide_unpack _). vm_compute. exact I.
Defined.

Lemma take_order_spec_witness :
  ∃ o w', take_order receptionist "paneer" 5 initial_world = (Ok o, w') ∧
          heap w' !! o = Some (OrderObj 5 (mkPizza 0%nat Paneer)).
Proof.
  destruct (take_order_spec receptionist "paneer" 5 initial_world) as [Hok _].
  destruct (Hok (mkPizza 0%nat Paneer)
              (set_heap {[ 0%nat := PizzaObj Paneer ]}
                 (set_stdout [received_line 5 "paneer"] initial_world)))
    as (o & _ & Hrun); [vm_compute; reflexivity|].
  eexists _, _. split; [exact Hrun|]. simpl. apply lookup_insert_eq.
Defined.

Lemma register_effect_witness :
  ∃ w', register "paneer" Paneer "veg" empty_world = (Ok tt, w') ∧
        registry w' !! "paneer" = Some Paneer ∧
        registry w' !! "chicken" = registry empty_world !! "chicken".
Proof.
  destruct (register_effect "paneer" Paneer "veg" empty_world)
    as (w' & Hrun & Hreg & Hother & _).
  exists w'. split; [exact Hrun|]. split; [exact Hreg|].
  apply Hother. discriminate.
Defined.

Lemma get_category_members_witness :
  ∃ s, get_category "seafood" initial_world = (Ok s, initial_world) ∧ s = ∅.
Proof.
  destruct (get_category_members "seafood") as [Hget _].
  destruct (Hget initial_world) as (s & Hrun & Hnone & _).
  exists s. split; [exact Hrun|]. apply Hnone. vm_compute. reflexivity.
Defined.

Lemma Order_deliver_prepares_witness :
  ∃ item_effect,
    Order_deliver 1%nat paneer_order_world
    = (Ok tt, set_stdout (stdout paneer_order_world
                          ++ [delivering_line 5] ++ item_effect) paneer_order_world) ∧
    Order_prepare 1%nat paneer_order_world
    = (Ok tt, set_stdout (stdout paneer_order_world
                          ++ [preparing_line 5] ++ item_effect) paneer_order_world).
Proof.
  destruct (Order_deliver_prepares 1%nat 5 (mkPizza 0%nat Paneer) paneer_order_world)
    as (item_effect & _ & Hprepare & Hdeliver & _); [vm_compute; reflexivity|].
  by exists item_effect.
Defined.

Lemma Order_prepare_idempotent_witness :
  ∃ w', repeat_call 3 (Order_prepare 1%nat) paneer_order_world = (Ok tt, w') ∧
        heap w' !! 1%nat = Some (OrderObj 5 (mkPizza 0%nat Paneer)).
Proof.
  destruct (Order_prepare_idempotent 1%nat 5 (mkPizza 0%nat Paneer) paneer_order_world)
    as (Hcalls & _); [vm_compute; reflexivity|].
  destruct (Hcalls 3%nat) as (w' & Hrun & _ & _ & _ & _ & Ho).
  by exists w'.
Defined.

Lemma registry_invariant_witness :
  members_registered initial_world ∧
  ∃ p w', prepare_pizza NonVegChef "chicken" initial_world = (Ok p, w').
Proof.
  destruct registry_invariant as (_ & _ & Hall & Hchef).
  pose proof (Hall [("margherita", Margherita, "veg"); ("paneer", Paneer, "veg");
                    ("farmhouse", Farmhouse, "veg"); ("chicken", Chicken, "nonveg")])
    as Hinv.
  change (members_registered initial_world) in Hinv.
  split; [exact Hinv|].
  destruct (Hchef initial_world NonVegChef "NonVegChef" "nonveg"
              (default ∅ (categories initial_world !! "nonveg")) "chicken"
              Hinv NonVegChef_handler eq_refl) as (p & w' & _ & Hrun).
  { apply (bool_decide_unpack _). vm_compute. exact I. }
  by exists p, w'.
Defined.

Lemma place_order_absorbs_ValueError_witness :
  place_order_loop [VegChef; NonVegChef] "ghost" tampered_world
  = place_order_loop [NonVegChef] "ghost" tampered_world.
Proof.
  destruct place_order_absorbs_ValueError as (Habsorb & _).
  apply (Habsorb VegChef [NonVegChef] "ghost" tampered_world
           "Unknown pizza type: ghost" tampered_world).
  vm_compute. reflexivity.
Defined.

(** * Further properties of the code *)

(** ** Pizza variants *)

(** X1: the four pizza classes print pairwise different lines, so the line
    identifies the class; [prepare] never raises, appends exactly that one
    line and changes nothing else. *)
Theorem Pizza_prepare_distinct (p q : Pizza) (w : World) :
  (∃ w', Pizza_prepare p w = (Ok tt, w') ∧
         stdout w' = (stdout w ++ [prepare_line (pizza_class p)])%list ∧
         heap w' = heap w ∧ registry w' = registry w ∧
         categories w' = categories w) ∧
  (Pizza_prepare p w = Pizza_prepare q w ↔ pizza_class p = pizza_class q).
Proof.
  split; [by eexists|]. rewrite !Pizza_prepare_spec. split.
  - intros [= Hout]. apply app_inv_head in Hout. injection Hout as Hline.
    by destruct (pizza_class p), (pizza_class q).
  - by intros ->.
Qed.

(** ** Registration *)

(** X2: registering the same name, constructor and category a second time
    changes nothing: the state after two identical [register] calls is the
    state after one. *)
Theorem register_idempotent (n : string) (k : PizzaClass) (c : string) (w : World) :
  register n k c (register n k c w).2 = register n k c w.
Proof.
  rewrite !register_spec. simpl. f_equal.
  rewrite !insert_insert_eq, lookup_insert_eq. simpl.
  by rewrite <-(assoc_L (∪)), (idemp_L (∪)).
Qed.

Lemma well_registered_empty : well_registered empty_world.
Proof.
  split.
  - intros name [k Hk]. simpl in Hk. by rewrite lookup_empty in Hk.
  - intros category members Hc. simpl in Hc. by rewrite lookup_empty in Hc.
Qed.

Lemma well_registered_register (n : string) (k : PizzaClass) (c : string)
    (w : World) :
  well_registered w → well_registered (register n k c w).2.
Proof.
  intros [Hcat Hne]. rewrite register_spec. split; simpl.
  - intros name Hname. destruct (decide (name = n)) as [->|Hneq].
    + eexists c, _. split; [apply lookup_insert_eq|].
      apply elem_of_union_r. by apply elem_of_singleton.
    + rewrite lookup_insert_ne in Hname by congruence.
      destruct (Hcat name Hname) as (c' & s & Hc' & Hin).
      destruct (decide (c = c')) as [->|Hc].
      * eexists c', _. split; [apply lookup_insert_eq|].
        rewrite Hc'. simpl. by apply elem_of_union_l.
      * exists c', s. by rewrite lookup_insert_ne.
  - intros category members. destruct (decide (c = category)) as [->|Hc].
    + rewrite lookup_insert_eq. intros [= <-] Hempty.
      assert (n ∈ default ∅ (categories w !! category) ∪ ({[n]} : gset string))
        as Hin by (apply elem_of_union_r; by apply elem_of_singleton).
      rewrite Hempty in Hin. by apply elem_of_empty in Hin.
    + rewrite lookup_insert_ne by done. apply Hne.
Qed.

(** X3: in every reachable state each registered name is a member of at
    least one category (so some category chef's membership test accepts it),
    and no category the factory knows is empty. *)
Theorem reachable_well_registered (w : World) :
  reachable w → well_registered w.
Proof.
  intros Hreach.
  refine (rtc_ind_r well_registered empty_world _ _ w Hreach);
    [apply well_registered_empty|].
  clear w Hreach. intros w w' _ Hstep IH.
  destruct (step_frame _ _ Hstep) as [(Hreg & Hcat & _)|(n & k & c & ->)].
  - unfold well_registered. rewrite Hreg, Hcat. exact IH.
  - by apply well_registered_register.
Qed.

(** ** Nothing is ever taken away *)

Lemma grows_refl (w : World) : grows w w.
Proof. by split_and!. Qed.

Lemma grows_trans (w1 w2 w3 : World) : grows w1 w2 → grows w2 w3 → grows w1 w3.
Proof.
  intros (Hr1 & Hc1 & Hh1 & Ho1) (Hr2 & Hc2 & Hh2 & Ho2).
  split_and!; [by auto|by auto|by etrans|by etrans].
Qed.

Lemma grows_bind {A B} (c : M A) (k : A → M B) (w : World) :
  grows w (c w).2 →
  (∀ a w1, c w = (Ok a, w1) → grows w1 (k a w1).2) →
  grows w ((c ≫= k) w).2.
Proof.
  intros Hc Hk. unfold_bind.
  destruct (c w) as [[a|e] w1] eqn:Hrun; simpl in *; [|done].
  eapply grows_trans; [exact Hc|]. by apply Hk.
Qed.

Lemma grows_print (s : string) (w : World) : grows w (print s w).2.
Proof. split_and!; [done..|]. simpl. by apply prefix_app_r. Qed.

Lemma grows_alloc (o : obj) (w : World) : grows w (alloc o w).2.
Proof.
  split_and!; [done..| |done]. simpl. apply insert_subseteq, fresh_not_live.
Qed.

Lemma grows_register (n : string) (k : PizzaClass) (c : string) (w : World) :
  grows w (register n k c w).2.
Proof.
  split_and!; [| |by rewrite register_spec..].
  - intros name Hname. rewrite register_spec. simpl.
    destruct (decide (n = name)) as [->|Hne];
      [by rewrite lookup_insert_eq|by rewrite lookup_insert_ne].
  - intros category name Hin. apply register_members. by right.
Qed.

Lemma grows_get_pizza (n : string) (w : World) : grows w (get_pizza n w).2.
Proof.
  unfold get_pizza. destruct (registry w !! n); [|apply grows_refl].
  apply grows_bind; [apply grows_alloc|]. intros; apply grows_refl.
Qed.

Lemma grows_prepare_pizza (chef : Chef) (n : string) (w : World) :
  is_category_handler chef → grows w (prepare_pizza chef n w).2.
Proof.
  intros (chef_name & category & Hchef).
  rewrite (handler_prepare_pizza _ _ _ _ _ Hchef).
  case_decide; [apply grows_get_pizza|apply grows_refl].
Qed.

Lemma grows_place_order_loop (chefs : list Chef) (n : string) (w : World) :
  Forall is_category_handler chefs → grows w (place_order_loop chefs n w).2.
Proof.
  intros Hchefs.
  destruct (place_order_loop_outcome chefs n w Hchefs)
    as [(? & ? & ? & cls & l & _ & _ & _ & _ & Hl & ->)| ->]; [|apply grows_refl].
  split_and!; [done..| |done]. simpl. by apply insert_subseteq.
Qed.

Lemma grows_Order_fields (order : loc) (w : World) :
  grows w (Order_fields order w).2.
Proof.
  unfold Order_fields. destruct (heap w !! order) as [[]|]; apply grows_refl.
Qed.

Lemma grows_Order_prepare (order : loc) (w : World) :
  grows w (Order_prepare order w).2.
Proof.
  apply grows_bind; [apply grows_Order_fields|]. intros [order_id pizza] w1 _.
  apply grows_bind; [apply grows_print|]. intros; apply grows_print.
Qed.

Lemma grows_Order_deliver (order : loc) (w : World) :
  grows w (Order_deliver order w).2.
Proof.
  apply grows_bind; [apply grows_Order_fields|]. intros [order_id pizza] w1 _.
  apply grows_bind; [apply grows_print|]. intros; apply grows_print.
Qed.

Lemma grows_take_order (chefs : list (string * Chef)) (n : string) (i : Z)
    (w : World) :
  Forall is_category_handler chefs.*2 →
  grows w (take_order (mkReceptionist (HeadChef chefs)) n i w).2.
Proof.
  intros Hchefs. apply grows_bind; [apply grows_print|]. intros _ w1 _.
  apply grows_bind; [by apply grows_place_order_loop|]. intros p w2 _.
  apply grows_alloc.
Qed.

Create HintDb grows.
#[local] Hint Resolve grows_refl grows_print grows_alloc grows_register
  grows_get_pizza grows_prepare_pizza grows_place_order_loop
  grows_Order_prepare grows_Order_deliver grows_take_order : grows.

Lemma step_grows (w w' : World) : step w w' → grows w w'.
Proof.
  destruct 1;
    try unfold Waiter_deliver, Order_new, Pizza_prepare, get_category;
    try change (place_order (HeadChef ?chefs) ?n) with (place_order_loop chefs.*2 n);
    auto with grows.
Qed.

(** X4: no operation of the module, and no sequence of them, takes anything
    away: a registered name stays registered, a member of a category stays a
    member, a live object stays as it is, and what was printed stays at the
    front of the output. *)
Theorem steps_grow (w w' : World) :
  rtc step w w' →
  (∀ name, is_Some (registry w !! name) → is_Some (registry w' !! name)) ∧
  (∀ category members,
     get_category category w = (Ok members, w) →
     ∃ members', get_category category w' = (Ok members', w') ∧
                 members ⊆ members') ∧
  (∀ l o, heap w !! l = Some o → heap w' !! l = Some o) ∧
  stdout w `prefix_of` stdout w'.
Proof.
  intros Hsteps.
  assert (grows w w') as (Hreg & Hcat & Hheap & Hout).
  { induction Hsteps as [|w1 w2 w3 Hstep _ IH]; [apply grows_refl|].
    eapply grows_trans; [by apply step_grows|exact IH]. }
  split_and!; [done| |by intros l o Hl; eapply lookup_weaken|done].
  intros category members Hget. rewrite get_category_spec in Hget.
  injection Hget as <-. eexists. split; [apply get_category_spec|].
  intros name. apply Hcat.
Qed.

(** ** More on the fallback loop *)

(** X5: fallback chains compose.  A head chef over the concatenation of two
    chef registries behaves as trying a head chef over the first and, on a
    [ValueError], a head chef over the second, in the state the first left;
    this holds for arbitrary chefs. *)
Theorem HeadChef_app (r1 r2 : list (string * Chef)) (n : string) (w : World) :
  place_order (HeadChef (r1 ++ r2)) n w
  = try_except_ValueError (place_order (HeadChef r1) n)
                          (place_order (HeadChef r2) n) w.
Proof.
  simpl. rewrite fmap_app. generalize (r1.*2) (r2.*2). clear r1 r2.
  intros xs ys. revert w. induction xs as [|chef xs IH]; intros w; [done|].
  simpl. unfold try_except_ValueError.
  destruct (prepare_pizza chef n w) as [[p|[msg|msg]] w1]; [done| |done].
  by rewrite IH.
Qed.

Lemma place_order_loop_handlers_result (chefs : list Chef) (n : string) (w : World) :
  Forall is_category_handler chefs →
  ((∃ chef, chef ∈ chefs ∧ succeeds chef n w) ∧
   place_order_loop chefs n w = get_pizza n w) ∨
  ((∀ chef, chef ∈ chefs → ¬ succeeds chef n w) ∧
   place_order_loop chefs n w = (Raise (NoHandlerAvailable n), w)).
Proof.
  induction 1 as [|chef rest Hchef _ IH].
  { right. split; [|done]. intros chef Hin. by apply elem_of_nil in Hin. }
  simpl. destruct (handler_outcome chef n w Hchef)
    as [(chef_name & category & cls & l & Hc & Hmem & Hreg & Hl & Hrun)|[msg Hrun]].
  - left. split; [exists chef; split; [by left|by eexists _, _]|].
    rewrite (try_except_ValueError_returned _ _ _ _ _ Hrun), <-Hrun.
    rewrite (handler_prepare_pizza _ _ _ _ _ Hc). by rewrite decide_True.
  - rewrite (try_except_ValueError_caught _ _ _ _ _ Hrun).
    destruct IH as [[(chef' & Hin & Hok) IH]|[Hnone IH]].
    + left. split; [|done]. exists chef'. split; [by right|done].
    + right. split; [|done]. intros chef' [->|Hin]%elem_of_cons; [|by apply Hnone].
      intros (p & w' & Hok). by rewrite Hok in Hrun.
Qed.

Lemma place_order_loop_subseteq (chefs1 chefs2 : list Chef) (n : string)
    (w w' : World) (p : Pizza) :
  Forall is_category_handler chefs1 → Forall is_category_handler chefs2 →
  chefs1 ⊆ chefs2 →
  place_order_loop chefs1 n w = (Ok p, w') →
  place_order_loop chefs2 n w = (Ok p, w').
Proof.
  intros H1 H2 Hsub Hrun.
  destruct (place_order_loop_handlers_result chefs1 n w H1)
    as [[(chef & Hin & Hok) Heq1]|[_ Heq1]]; [|by rewrite Heq1 in Hrun].
  destruct (place_order_loop_handlers_result chefs2 n w H2)
    as [[_ Heq2]|[Hnone _]]; [congruence|].
  destruct (Hnone chef); [by apply Hsub|done].
Qed.

(** X6: with category chefs, the outcome of [place_order] does not depend on
    the order of the chefs in the registry: a registry that contains all the
    chefs of another returns every item the other returns, and two
    registries that are permutations of one another give the same result and
    the same state. *)
Theorem place_order_order_independent (r1 r2 : list (string * Chef))
    (n : string) (w : World) :
  Forall is_category_handler r1.*2 →
  Forall is_category_handler r2.*2 →
  (r1.*2 ⊆ r2.*2 →
   ∀ p w', place_order (HeadChef r1) n w = (Ok p, w') →
           place_order (HeadChef r2) n w = (Ok p, w')) ∧
  (r1 ≡ₚ r2 → place_order (HeadChef r1) n w = place_order (HeadChef r2) n w).
Proof.
  intros H1 H2. split.
  - intros Hsub p w'. simpl. by apply place_order_loop_subseteq.
  - intros Hperm. simpl.
    assert (r1.*2 ≡ₚ r2.*2) as Hperm2 by by apply fmap_Permutation.
    destruct (place_order_loop_handlers_result r1.*2 n w H1)
      as [[(chef & Hin & Hok) Heq1]|[Hnone1 Heq1]];
    destruct (place_order_loop_handlers_result r2.*2 n w H2)
      as [[(chef' & Hin' & Hok') Heq2]|[Hnone2 Heq2]]; try congruence.
    + destruct (Hnone2 chef); [by rewrite <-Hperm2|done].
    + destruct (Hnone1 chef'); [by rewrite Hperm2|done].
Qed.

(** X7: with category chefs, in any state, an item returned by
    [place_order] is exactly what [get_pizza] returns for that name in that
    state: a new instance of the class registered for the name, and no
    other change to the state. *)
Theorem place_order_creates (chefs : list (string * Chef)) (n : string)
    (w w' : World) (p : Pizza) :
  Forall is_category_handler chefs.*2 →
  place_order (HeadChef chefs) n w = (Ok p, w') →
  get_pizza n w = (Ok p, w') ∧
  registry w !! n = Some (pizza_class p) ∧
  heap w !! pizza_addr p = None ∧
  w' = set_heap (<[pizza_addr p := PizzaObj (pizza_class p)]> (heap w)) w.
Proof.
  intros Hchefs Hrun. simpl in Hrun.
  destruct (place_order_loop_outcome chefs.*2 n w Hchefs)
    as [(? & ? & ? & cls & l & _ & _ & _ & Hreg & Hl & Hok)|Hfail];
    [|by rewrite Hfail in Hrun].
  destruct (place_order_loop_handlers_result chefs.*2 n w Hchefs)
    as [[_ Heq]|[_ Heq]]; [|by rewrite Heq in Hrun].
  rewrite Hok in Hrun. injection Hrun as <- <-. simpl.
  split_and!; try done. by rewrite <-Heq.
Qed.

Lemma place_order_loop_member (chefs : list Chef) (n : string) (cls : PizzaClass)
    (w : World) :
  Forall is_category_handler chefs →
  (∃ chef chef_name category,
      chef ∈ chefs ∧ CategoryHandler chef chef_name category ∧
      n ∈ default ∅ (categories w !! category)) →
  registry w !! n = Some cls →
  ∃ l, heap w !! l = None ∧
       place_order_loop chefs n w
       = (Ok (mkPizza l cls), set_heap (<[l := PizzaObj cls]> (heap w)) w).
Proof.
  intros Hchefs (chef & chef_name & category & Hin & Hc & Hmem) Hreg.
  destruct (get_pizza_registered n cls w Hreg) as (l & Hl & Hget).
  exists l. split; [done|].
  destruct (place_order_loop_handlers_result chefs n w Hchefs)
    as [[_ ->]|[Hnone _]]; [done|].
  destruct (Hnone chef Hin). eexists (mkPizza l cls), _.
  rewrite (handler_prepare_pizza _ _ _ _ _ Hc). by rewrite decide_True.
Qed.

Lemma place_order_loop_no_member (chefs : list Chef) (n : string) (w : World) :
  Forall is_category_handler chefs →
  registry w !! n = None ∨
  (∀ chef chef_name category,
      chef ∈ chefs → CategoryHandler chef chef_name category →
      n ∉ default ∅ (categories w !! category)) →
  place_order_loop chefs n w = (Raise (NoHandlerAvailable n), w).
Proof.
  intros Hchefs Hno.
  destruct (place_order_loop_outcome chefs n w Hchefs)
    as [(chef & chef_name & category & cls & l & Hin & Hc & Hmem & Hreg & _)|Hfail];
    [|done].
  destruct Hno as [Hnone|Hno]; [congruence|]. by destruct (Hno chef chef_name category).
Qed.

Lemma take_order_run (r : Receptionist) (n : string) (i : Z) (w : World) :
  take_order r n i w
  = match place_order (kitchen r) n
            (set_stdout (stdout w ++ [received_line i n]) w) with
    | (Ok p, w2) => alloc (OrderObj i p) w2
    | (Raise e, w2) => (Raise e, w2)
    end.
Proof. done. Qed.

(** The state after [take_order] has succeeded in [w]: the receipt line is
    printed, and pizza [lp] of class [cls] and order [o] are allocated. *)
Lemma take_order_cases (chefs : list (string * Chef)) (n : string) (i : Z)
    (w : World) :
  Forall is_category_handler chefs.*2 →
  (∃ cls lp o,
      registry w !! n = Some cls ∧ heap w !! lp = None ∧ heap w !! o = None ∧
      lp ≠ o ∧
      take_order (mkReceptionist (HeadChef chefs)) n i w
      = (Ok o, {| registry := registry w; categories := categories w;
                  heap := <[o := OrderObj i (mkPizza lp cls)]>
                            (<[lp := PizzaObj cls]> (heap w));
                  stdout := stdout w ++ [received_line i n] |})) ∨
  take_order (mkReceptionist (HeadChef chefs)) n i w
  = (Raise (NoHandlerAvailable n), set_stdout (stdout w ++ [received_line i n]) w).
Proof.
  intros Hchefs. rewrite take_order_run.
  set (w1 := set_stdout (stdout w ++ [received_line i n]) w).
  change (place_order (kitchen _) n w1) with (place_order_loop chefs.*2 n w1).
  destruct (place_order_loop_outcome chefs.*2 n w1 Hchefs)
    as [(? & ? & ? & cls & lp & _ & _ & _ & Hreg & Hlp & ->)| ->]; [|by right].
  left.
  destruct (alloc_spec (OrderObj i (mkPizza lp cls))
              (set_heap (<[lp := PizzaObj cls]> (heap w1)) w1)) as (o & Ho & ->).
  simpl in Ho. exists cls, lp, o.
  assert (lp ≠ o) as Hne by (intros ->; by rewrite lookup_insert_eq in Ho).
  rewrite lookup_insert_ne in Ho by done. by split_and!.
Qed.

(** ** Two orders never share anything *)

(** X8: two orders taken one after the other from a head chef over category
    chefs are different objects wrapping different pizza instances; after
    the second call both orders are live with the ids they were given, both
    pizzas are live, and each pizza has the class registered for its name. *)
Theorem take_order_twice_independent
    (chefs : list (string * Chef)) (n1 n2 : string) (i1 i2 : Z)
    (w w1 w2 : World) (o1 o2 : loc) :
  Forall is_category_handler chefs.*2 →
  take_order (mkReceptionist (HeadChef chefs)) n1 i1 w = (Ok o1, w1) →
  take_order (mkReceptionist (HeadChef chefs)) n2 i2 w1 = (Ok o2, w2) →
  ∃ p1 p2,
    heap w2 !! o1 = Some (OrderObj i1 p1) ∧
    heap w2 !! o2 = Some (OrderObj i2 p2) ∧
    heap w2 !! pizza_addr p1 = Some (PizzaObj (pizza_class p1)) ∧
    heap w2 !! pizza_addr p2 = Some (PizzaObj (pizza_class p2)) ∧
    registry w !! n1 = Some (pizza_class p1) ∧
    registry w !! n2 = Some (pizza_class p2) ∧
    NoDup [o1; o2; pizza_addr p1; pizza_addr p2].
Proof.
  intros Hchefs Hrun1 Hrun2.
  destruct (take_order_cases chefs n1 i1 w Hchefs)
    as [(cls1 & lp1 & o1' & Hreg1 & Hlp1 & Ho1 & Hne1 & Heq1)|Hfail];
    [|by rewrite Hfail in Hrun1].
  rewrite Heq1 in Hrun1. injection Hrun1 as -> Hw1.
  destruct (take_order_cases chefs n2 i2 w1 Hchefs)
    as [(cls2 & lp2 & o2' & Hreg2 & Hlp2 & Ho2 & Hne2 & Heq2)|Hfail];
    [|by rewrite Hfail in Hrun2].
  rewrite Heq2 in Hrun2. injection Hrun2 as -> <-.
  subst w1. simpl in *.
  assert (lp2 ≠ o1) as Hlp2o1 by (intros ->; by rewrite lookup_insert_eq in Hlp2).
  assert (o2 ≠ o1) as Ho2o1 by (intros ->; by rewrite lookup_insert_eq in Ho2).
  rewrite lookup_insert_ne in Hlp2, Ho2 by done.
  assert (lp2 ≠ lp1) as Hlp2lp1 by (intros ->; by rewrite lookup_insert_eq in Hlp2).
  assert (o2 ≠ lp1) as Ho2lp1 by (intros ->; by rewrite lookup_insert_eq in Ho2).
  exists (mkPizza lp1 cls1), (mkPizza lp2 cls2). simpl. split_and!; try done.
  - by rewrite !lookup_insert_ne, lookup_insert_eq by done.
  - by rewrite lookup_insert_eq.
  - by rewrite !lookup_insert_ne, lookup_insert_eq by done.
  - by rewrite lookup_insert_ne, lookup_insert_eq by done.
  - repeat constructor; rewrite ?elem_of_cons, ?elem_of_nil; intuition congruence.
Qed.

(** ** One order through the shop *)

Lemma process_order_taken (r : Receptionist) (n : string) (i : Z) (p : Pizza)
    (o : loc) (w w1 : World) :
  take_order r n i w = (Ok o, w1) →
  heap w1 !! o = Some (OrderObj i p) →
  process_order r n i w
  = (Ok (i + 1),
     set_stdout (stdout w1 ++ [preparing_line i; prepare_line (pizza_class p);
                               delivering_line i; prepare_line (pizza_class p)]) w1).
Proof.
  intros Htake Ho. unfold process_order, try_except_ValueError_as. unfold_bind.
  rewrite Htake, (Order_prepare_spec o i p w1 Ho). unfold Waiter_deliver.
  rewrite (Order_deliver_spec o i p); [|exact Ho].
  simpl. by rewrite set_stdout_twice, <-app_assoc.
Qed.

Lemma process_order_rejected (r : Receptionist) (n msg : string) (i : Z)
    (w w1 : World) :
  take_order r n i w = (Raise (ValueError msg), w1) →
  process_order r n i w
  = (Ok (i + 1), set_stdout (stdout w1 ++ [error_line i msg]) w1).
Proof.
  intros Htake. unfold process_order, try_except_ValueError_as. unfold_bind.
  by rewrite Htake.
Qed.

Lemma served_by_member (chefs : list Chef) (n : string) (w : World) :
  served_by chefs n w ↔
  ∃ chef chef_name category,
    chef ∈ chefs ∧ CategoryHandler chef chef_name category ∧
    n ∈ default ∅ (categories w !! category).
Proof.
  unfold served_by. split.
  - intros (chef & chef_name & category & members & Hin & Hc & Hget & Hmem).
    rewrite get_category_spec in Hget. injection Hget as <-.
    by exists chef, chef_name, category.
  - intros (chef & chef_name & category & Hin & Hc & Hmem).
    exists chef, chef_name, category, (default ∅ (categories w !! category)).
    by rewrite get_category_spec.
Qed.

(** X9: one pass of the loop body for a name that some category chef
    serves and that has a constructor of class [cls]: the statement ends
    normally with the counter increased by one; the output grows by exactly
    five lines (receipt, preparation line, the item's line, delivery line,
    the item's line again); the heap grows by exactly one pizza of class
    [cls] and one order wrapping it with the current counter as its id; the
    factory's dicts are untouched. *)
Theorem process_order_served (chefs : list (string * Chef)) (n : string)
    (cls : PizzaClass) (i : Z) (w : World) :
  Forall is_category_handler chefs.*2 →
  served_by chefs.*2 n w →
  registry w !! n = Some cls →
  ∃ lp o,
    heap w !! lp = None ∧ heap w !! o = None ∧ lp ≠ o ∧
    process_order (mkReceptionist (HeadChef chefs)) n i w
    = (Ok (i + 1),
       {| registry := registry w; categories := categories w;
          heap := <[o := OrderObj i (mkPizza lp cls)]>
                    (<[lp := PizzaObj cls]> (heap w));
          stdout := stdout w ++ [received_line i n; preparing_line i;
                                 prepare_line cls; delivering_line i;
                                 prepare_line cls] |}).
Proof.
  intros Hchefs Hserved%served_by_member Hreg.
  set (w1 := set_stdout (stdout w ++ [received_line i n]) w).
  destruct (place_order_loop_member chefs.*2 n cls w1 Hchefs Hserved Hreg)
    as (lp & Hlp & Hloop).
  destruct (alloc_spec (OrderObj i (mkPizza lp cls))
              (set_heap (<[lp := PizzaObj cls]> (heap w1)) w1)) as (o & Ho & Halloc).
  simpl in Hlp, Ho.
  assert (lp ≠ o) as Hne by (intros ->; by rewrite lookup_insert_eq in Ho).
  rewrite lookup_insert_ne in Ho by done.
  exists lp, o. split_and!; try done.
  rewrite (process_order_taken _ n i (mkPizza lp cls) o w
             (set_heap (<[o := OrderObj i (mkPizza lp cls)]>
                          (<[lp := PizzaObj cls]> (heap w1)))
                (set_heap (<[lp := PizzaObj cls]> (heap w1)) w1))).
  - simpl. unfold set_stdout. simpl. by rewrite <-app_assoc.
  - rewrite take_order_run. fold w1.
    change (place_order (kitchen _) n w1) with (place_order_loop chefs.*2 n w1).
    rewrite Hloop. exact Halloc.
  - simpl. apply lookup_insert_eq.
Qed.

(** X10: with a head chef over category chefs the loop body never lets an
    exception out, in any state: it always ends normally with the counter
    increased by one.  For a name without a constructor, or one that no
    chef's category contains, it prints the receipt line and then the error
    line carrying the no-chef message, and changes nothing else. *)
Theorem process_order_never_raises (chefs : list (string * Chef)) (n : string)
    (i : Z) (w : World) :
  Forall is_category_handler chefs.*2 →
  (∃ w', process_order (mkReceptionist (HeadChef chefs)) n i w = (Ok (i + 1), w')) ∧
  (registry w !! n = None ∨ ¬ served_by chefs.*2 n w →
   process_order (mkReceptionist (HeadChef chefs)) n i w
   = (Ok (i + 1),
      set_stdout (stdout w ++ [received_line i n;
                               error_line i ("No chef available to prepare '"
                                             ++ n ++ "'")]) w)).
Proof.
  intros Hchefs. split.
  - destruct (take_order_cases chefs n i w Hchefs)
      as [(cls & lp & o & _ & _ & _ & _ & Htake)|Htake].
    + eexists. eapply process_order_taken; [exact Htake|].
      simpl. apply lookup_insert_eq.
    + eexists. eapply process_order_rejected. exact Htake.
  - intros Hno.
    set (w1 := set_stdout (stdout w ++ [received_line i n]) w).
    assert (place_order_loop chefs.*2 n w1 = (Raise (NoHandlerAvailable n), w1))
      as Hloop.
    { apply place_order_loop_no_member; [done|].
      destruct Hno as [Hnone|Hno]; [by left|right].
      intros chef chef_name category Hin Hc Hmem. apply Hno.
      apply served_by_member. by exists chef, chef_name, category. }
    rewrite (process_order_rejected _ n
               ("No chef available to prepare '" ++ n ++ "'") i w w1).
    + simpl. unfold set_stdout. simpl. by rewrite <-app_assoc.
    + rewrite take_order_run. fold w1.
      change (place_order (kitchen _) n w1) with (place_order_loop chefs.*2 n w1).
      by rewrite Hloop.
Qed.

(** ** The shop as configured *)

Lemma initial_registry (n : string) :
  registry initial_world !! n
  = if decide ("chicken" = n) then Some Chicken
    else if decide ("farmhouse" = n) then Some Farmhouse
    else if decide ("paneer" = n) then Some Paneer
    else if decide ("margherita" = n) then Some Margherita
    else None.
Proof.
  change (registry initial_world)
    with (<["chicken" := Chicken]> (<["farmhouse" := Farmhouse]>
          (<["paneer" := Paneer]> (<["margherita" := Margherita]>
          (∅ : gmap string PizzaClass))))).
  rewrite !lookup_insert. by rewrite lookup_empty.
Qed.

(** X11: in any state whose factory dicts are those built at import time,
    the simulation's head chef serves exactly the four registered names,
    spelled exactly as registered, each with its own class: "margherita",
    "paneer", "farmhouse" and "chicken" give a Margherita, Paneer, Farmhouse
    and Chicken instance, and every other name gets the no-chef error with
    the state unchanged. *)
Theorem shop_menu (n : string) (w : World) :
  registry w = registry initial_world →
  categories w = categories initial_world →
  (∀ k, (n, k) ∈ [("margherita", Margherita); ("paneer", Paneer);
                  ("farmhouse", Farmhouse); ("chicken", Chicken)] →
        ∃ p w', place_order (HeadChef chef_registry) n w = (Ok p, w') ∧
                pizza_class p = k) ∧
  (n ∉ ["margherita"; "paneer"; "farmhouse"; "chicken"] →
   place_order (HeadChef chef_registry) n w = (Raise (NoHandlerAvailable n), w)).
Proof.
  intros Hreg Hcat. split.
  - intros k Hin.
    assert (registry w !! n = Some k ∧
            ∃ chef chef_name category,
              chef ∈ chef_registry.*2 ∧ CategoryHandler chef chef_name category ∧
              n ∈ default ∅ (categories w !! category)) as [Hk Hserved].
    { rewrite Hreg, Hcat.
      assert (VegChef ∈ chef_registry.*2) as Hveg by (simpl; by left).
      assert (NonVegChef ∈ chef_registry.*2) as Hnonveg
        by (simpl; right; by left).
      repeat (apply elem_of_cons in Hin as [[= -> ->]|Hin]);
        [..|by apply elem_of_nil in Hin];
        (split; [vm_compute; reflexivity|]).
      - exists VegChef, "VegChef", "veg".
        split_and!; [done|constructor|]. apply (bool_decide_unpack _). by vm_compute.
      - exists VegChef, "VegChef", "veg".
        split_and!; [done|constructor|]. apply (bool_decide_unpack _). by vm_compute.
      - exists VegChef, "VegChef", "veg".
        split_and!; [done|constructor|]. apply (bool_decide_unpack _). by vm_compute.
      - exists NonVegChef, "NonVegChef", "nonveg".
        split_and!; [done|constructor|]. apply (bool_decide_unpack _). by vm_compute. }
    destruct (place_order_loop_member chef_registry.*2 n k w
                chef_registry_handlers Hserved Hk) as (l & _ & Hrun).
    by eexists _, _.
  - intros Hnot. apply place_order_loop_no_member; [apply chef_registry_handlers|].
    left. rewrite Hreg, initial_registry.
    repeat case_decide; try done; subst n; destruct Hnot;
      rewrite !elem_of_cons; auto.
Qed.

(** ** Telling the errors apart *)

Lemma string_length_app (s t : string) :
  String.length (s ++ t) = (String.length s + String.length t)%nat.
Proof. induction s as [|a s IH]; simpl; [done|by rewrite IH]. Qed.

Lemma string_app_inj_r (s1 s2 t : string) : s1 ++ t = s2 ++ t → s1 = s2.
Proof.
  revert s2. induction s1 as [|a s1 IH]; intros [|b s2] Heq; simpl in Heq.
  - done.
  - apply (f_equal String.length) in Heq.
    rewrite ?string_length_app in Heq. simpl in Heq.
    rewrite ?string_length_app in Heq. lia.
  - apply (f_equal String.length) in Heq.
    rewrite ?string_length_app in Heq. simpl in Heq.
    rewrite ?string_length_app in Heq. lia.
  - injection Heq as -> Heq. f_equal. by apply IH.
Qed.

(** X12: the message of a [ValueError] tells where it was raised and for
    which name: the unknown-type, cannot-prepare (of either category chef)
    and no-chef errors are pairwise different whatever the names, and each of
    them determines the name (and, for cannot-prepare, the chef) it was
    built from. *)
Theorem error_kinds_distinct
    (chef1 chef2 : Chef) (name1 name2 cat1 cat2 n m : string) :
  CategoryHandler chef1 name1 cat1 →
  CategoryHandler chef2 name2 cat2 →
  UnknownItemType n ≠ NoHandlerAvailable m ∧
  UnknownItemType n ≠ CategoryMismatch name1 m ∧
  NoHandlerAvailable n ≠ CategoryMismatch name1 m ∧
  (UnknownItemType n = UnknownItemType m → n = m) ∧
  (NoHandlerAvailable n = NoHandlerAvailable m → n = m) ∧
  (CategoryMismatch name1 n = CategoryMismatch name2 m → name1 = name2 ∧ n = m).
Proof.
  intros H1 H2. unfold UnknownItemType, NoHandlerAvailable, CategoryMismatch.
  split_and!.
  - simpl. discriminate.
  - destruct H1; simpl; discriminate.
  - destruct H1; simpl; discriminate.
  - simpl. intros [= Heq]. exact Heq.
  - simpl. intros [= Heq]. apply (string_app_inj_r n m "'"). exact Heq.
  - destruct H1, H2; simpl; try discriminate; intros [= Heq]; by split.
Qed.

(** * The further properties at concrete inputs *)

Lemma reachable_well_registered_witness :
  ∃ category members,
    categories initial_world !! category = Some members ∧ "paneer" ∈ members.
Proof.
  destruct (reachable_well_registered initial_world initial_world_reachable)
    as [Hcat _].
  apply Hcat. exists Paneer. vm_compute. reflexivity.
Defined.

Lemma steps_grow_witness :
  is_Some (registry paneer_order_world !! "chicken") ∧
  stdout initial_world `prefix_of` stdout paneer_order_world.
Proof.
  destruct (steps_grow initial_world paneer_order_world) as (Hreg & _ & _ & Hout).
  { apply rtc_once.
    apply (step_take_order chef_registry "paneer" 5 initial_world
             chef_registry_handlers). }
  split; [|exact Hout]. apply Hreg. exists Chicken. vm_compute. reflexivity.
Defined.

Lemma place_order_order_independent_witness :
  place_order (HeadChef chef_registry) "chicken" initial_world
  = place_order (HeadChef [("nonveg", NonVegChef); ("veg", VegChef)])
      "chicken" initial_world.
Proof.
  destruct (place_order_order_independent chef_registry
              [("nonveg", NonVegChef); ("veg", VegChef)] "chicken" initial_world)
    as [_ Hperm].
  - apply chef_registry_handlers.
  - repeat constructor; eexists _, _; constructor.
  - apply Hperm. apply perm_swap.
Defined.

Lemma place_order_creates_witness :
  get_pizza "paneer" initial_world
  = (Ok (mkPizza 0%nat Paneer),
     set_heap {[ 0%nat := PizzaObj Paneer ]} initial_world).
Proof.
  destruct (place_order_creates chef_registry "paneer" initial_world
              (set_heap {[ 0%nat := PizzaObj Paneer ]} initial_world)
              (mkPizza 0%nat Paneer) chef_registry_handlers) as [Hget _].
  - vm_compute. reflexivity.
  - exact Hget.
Defined.

Lemma take_order_twice_independent_witness :
  ∃ p1 p2,
    heap (take_order receptionist "chicken" 2 paneer_order_world).2 !! 1%nat
    = Some (OrderObj 5 p1) ∧
    heap (take_order receptionist "chicken" 2 paneer_order_world).2 !! 3%nat
    = Some (OrderObj 2 p2) ∧
    NoDup [1%nat; 3%nat; pizza_addr p1; pizza_addr p2].
Proof.
  destruct (take_order_twice_independent chef_registry "paneer" "chicken" 5 2
              initial_world paneer_order_world
              (take_order receptionist "chicken" 2 paneer_order_world).2
              1%nat 3%nat chef_registry_handlers)
    as (p1 & p2 & Ho1 & Ho2 & _ & _ & _ & _ & Hdup).
  - vm_compute. reflexivity.
  - vm_compute. reflexivity.
  - by exists p1, p2.
Defined.

Lemma process_order_served_witness :
  ∃ w', process_order receptionist "paneer" 1 initial_world = (Ok 2, w') ∧
        stdout w' = [received_line 1 "paneer"; preparing_line 1;
                     prepare_line Paneer; delivering_line 1; prepare_line Paneer].
Proof.
  destruct (process_order_served chef_registry "paneer" Paneer 1 initial_world
              chef_registry_handlers) as (lp & o & _ & _ & _ & Hrun).
  - exists VegChef, "VegChef", "veg", (default ∅ (categories initial_world !! "veg")).
    split; [by left|]. split; [constructor|]. split; [reflexivity|].
    apply (bool_decide_unpack _). vm_compute. exact I.
  - vm_compute. reflexivity.
  - eexists. split; [exact Hrun|]. reflexivity.
Defined.

Lemma process_order_never_raises_witness :
  process_order receptionist "shrimp" 2 initial_world
  = (Ok 3, set_stdout [received_line 2 "shrimp";
                       error_line 2 "No chef available to prepare 'shrimp'"]
             initial_world).
Proof.
  destruct (process_order_never_raises chef_registry "shrimp" 2 initial_world
              chef_registry_handlers) as [_ Hfail].
  apply Hfail. left. vm_compute. reflexivity.
Defined.

Lemma shop_menu_witness :
  place_order (HeadChef chef_registry) "Paneer" initial_world
  = (Raise (NoHandlerAvailable "Paneer"), initial_world).
Proof.
  destruct (shop_menu "Paneer" initial_world eq_refl eq_refl) as [_ Hnot].
  apply Hnot. apply (bool_decide_unpack _). vm_compute. exact I.
Defined.

Lemma error_kinds_distinct_witness :
  NoHandlerAvailable "paneer" ≠ CategoryMismatch "VegChef" "chicken" ∧
  CategoryMismatch "VegChef" "paneer" ≠ CategoryMismatch "NonVegChef" "paneer".
Proof.
  destruct (error_kinds_distinct VegChef NonVegChef "VegChef" "NonVegChef"
              "veg" "nonveg" "paneer" "chicken" VegChef_handler NonVegChef_handler)
    as (_ & _ & Hkind & _).
  destruct (error_kinds_distinct VegChef NonVegChef "VegChef" "NonVegChef"
              "veg" "nonveg" "paneer" "paneer" VegChef_handler NonVegChef_handler)
    as (_ & _ & _ & _ & _ & Hinj).
  split; [exact Hkind|]. intros Heq. by destruct (Hinj Heq).
Defined.
